(** * A WebSocket signaling server: registry, rooms, relay and roster broadcast

    Shallow embedding of [main.go].  The two package-level maps ([clients],
    [roomUsers]) and the [Client] objects they point to are one explicit
    state; every [conn.WriteJSON] is recorded, in order, on a wire log.  The
    body of one iteration of the read loop is the state transformer
    [dispatch]; the loop itself is [serve]; several connections are
    interleaved by [run] over a list of events. *)

From Stdlib Require Import Ascii.
From stdpp Require Import gmap strings list fin_maps.

Local Open Scope string_scope.
Local Open Scope list_scope.

(** ** Data model *)

(** [*websocket.Conn]: an opaque transport handle. *)
Definition ConnHandle := nat.

(** [*Client]: the address of a [Client] object. *)
Definition loc := nat.

(** [json.RawMessage]: a byte string that the server never inspects. *)
Definition RawMessage := string.

(** [type User struct]. *)
Record User := mkUser {
  uID : string;
  uMicOn : bool
}.

(** [type Message struct]; [MicOn *bool] is an optional flag. *)
Record Message := mkMessage {
  mType : string;
  mRoom : string;
  mTo : string;
  mFrom : string;
  mOffer : RawMessage;
  mAnswer : RawMessage;
  mCandidate : RawMessage;
  mMicOn : option bool;
  mUsers : list User;
  mID : string
}.

(** [type Client struct]. *)
Record Client := mkClient {
  cID : string;
  cConn : ConnHandle;
  cRoom : string;
  cMicOn : bool
}.

(** The zero value of [Client]; it is what a read through an address that
    was never allocated yields in this model (no such read happens in a
    reachable state, see [reachable_wf]). *)
#[global] Instance Client_inhabited : Inhabited Client :=
  populate (mkClient "" 0 "" false).

#[global] Instance User_eq_dec : EqDecision User.
Proof. solve_decision. Defined.

(** The process state: the objects behind the [*Client] pointers, the two
    global maps, and the frames written so far (oldest first). *)
Record State := mkState {
  heap : list Client;
  clients : gmap string loc;
  roomUsers : gmap string (list string);
  wire : list (ConnHandle * Message)
}.

Definition initial : State := mkState [] ∅ ∅ [].

Definition set_heap (h : list Client) (s : State) : State :=
  mkState h (clients s) (roomUsers s) (wire s).
Definition set_clients (m : gmap string loc) (s : State) : State :=
  mkState (heap s) m (roomUsers s) (wire s).
Definition set_roomUsers (m : gmap string (list string)) (s : State) : State :=
  mkState (heap s) (clients s) m (wire s).
Definition set_wire (w : list (ConnHandle * Message)) (s : State) : State :=
  mkState (heap s) (clients s) (roomUsers s) w.

(** [*c]. *)
Definition deref (s : State) (c : loc) : Client := heap s !!! c.

(** [roomUsers[room]] read as a value: a missing key reads as the nil slice. *)
Definition members (room : string) (s : State) : list string :=
  default [] (roomUsers s !! room).

(** The zero [Message] with only some fields set, as the composite literals
    of the source build it. *)
Definition idMessage (id : string) : Message :=
  mkMessage "id" "" "" "" "" "" "" None [] id.
Definition userListMessage (users : list User) : Message :=
  mkMessage "user_list" "" "" "" "" "" "" None users "".

(** [msg.From = id]. *)
Definition stampFrom (id : string) (msg : Message) : Message :=
  mkMessage (mType msg) (mRoom msg) (mTo msg) id (mOffer msg) (mAnswer msg)
            (mCandidate msg) (mMicOn msg) (mUsers msg) (mID msg).

(** ** What [WriteJSON] puts in a frame

    [conn.WriteJSON] encodes the message with [encoding/json], HTML
    escaping on.  A text field reaches the peer with the value it has.  A
    [json.RawMessage] is not copied: the encoder passes it through its
    [compact], which drops the white space between tokens and rewrites the
    bytes [<], [>], [&] and the code points U+2028, U+2029.  The payloads
    are those [json.Unmarshal] stored, byte for byte as the client sent
    them, so they are valid JSON: a quote delimits strings, a backslash
    inside a string escapes the byte after it, and the bytes that are
    rewritten occur inside strings only.  An empty payload is a field the
    message does not have, and stays so. *)

(** White space of the JSON grammar: space, tab, line feed, carriage
    return. *)
Definition isSpace (c : Ascii.ascii) : bool :=
  Ascii.eqb c " "%char || Ascii.eqb c "009"%char || Ascii.eqb c "010"%char
  || Ascii.eqb c "013"%char.

(** The escapes written for [<], [>] and [&]. *)
Definition escapeHTML (c : Ascii.ascii) : option string :=
  if Ascii.eqb c "<"%char then Some "\u003c"
  else if Ascii.eqb c ">"%char then Some "\u003e"
  else if Ascii.eqb c "&"%char then Some "\u0026"
  else None.

(** [compact], with [escape] set: [inStr] says that the scan is inside a
    string literal, [esc] that the byte before was an unescaped backslash
    inside it.  Byte 34 is the quote, byte 92 the backslash, and 226 128 168
    and 226 128 169 are U+2028 and U+2029 in UTF-8. *)
Fixpoint compactFrom (inStr esc : bool) (src : string) : string :=
  match src with
  | EmptyString => EmptyString
  | String c rest =>
      let inStr' :=
        if inStr then (if esc then true else negb (Ascii.eqb c "034"%char))
        else Ascii.eqb c "034"%char in
      let esc' := inStr && negb esc && Ascii.eqb c "092"%char in
      let copy :=
        if negb inStr && isSpace c then compactFrom inStr' esc' rest
        else String c (compactFrom inStr' esc' rest) in
      match escapeHTML c with
      | Some e => String.append e (compactFrom inStr' esc' rest)
      | None =>
          if Ascii.eqb c "226"%char then
            match rest with
            | String c1 (String c2 rest') =>
                if Ascii.eqb c1 "128"%char
                   && (Ascii.eqb c2 "168"%char || Ascii.eqb c2 "169"%char) then
                  String.append "\u202"
                    (String (if Ascii.eqb c2 "168"%char then "8"%char else "9"%char)
                            (compactFrom inStr false rest'))
                else copy
            | _ => copy
            end
          else copy
      end
  end.

Definition compact (src : RawMessage) : RawMessage := compactFrom false false src.

(** The message as the frame carries it. *)
Definition encodeMessage (msg : Message) : Message :=
  mkMessage (mType msg) (mRoom msg) (mTo msg) (mFrom msg) (compact (mOffer msg))
            (compact (mAnswer msg)) (compact (mCandidate msg)) (mMicOn msg)
            (mUsers msg) (mID msg).



(** ** Operations *)

(** [sendMessage]: [conn.WriteJSON(msg)], its error discarded; the wire
    log records the message as the frame carries it. *)
Definition sendMessage (conn : ConnHandle) (msg : Message) (s : State) : State :=
  set_wire (wire s ++ [(conn, encodeMessage msg)]) s.

(** [sendTo]. *)
Definition sendTo (id : string) (msg : Message) (s : State) : State :=
  match clients s !! id with
  | Some target => sendMessage (cConn (deref s target)) msg s
  | None => s
  end.

(** First loop of [broadcastUserList]: the roster. *)
Definition roster (room : string) (s : State) : list User :=
  foldl (fun users id =>
           match clients s !! id with
           | Some c => users ++ [mkUser (cID (deref s c)) (cMicOn (deref s c))]
           | None => users
           end) [] (members room s).

(** [broadcastUserList]: the roster is computed, then the second loop
    writes it to every listed identifier that is registered. *)
Definition broadcastUserList (room : string) (s : State) : State :=
  let users := roster room s in
  foldl (fun st id =>
           match clients st !! id with
           | Some c => sendMessage (cConn (deref st c)) (userListMessage users) st
           | None => st
           end) s (members room s).

(** [removeClient]. *)
Definition removeClient (c : loc) (s : State) : State :=
  let id := cID (deref s c) in
  let room := cRoom (deref s c) in
  let s1 := set_clients (delete id (clients s)) s in
  match roomUsers s1 !! room with
  | Some users =>
      let updated :=
        foldl (fun upd i => if decide (i ≠ id) then upd ++ [i] else upd) [] users in
      set_roomUsers (<[room := updated]> (roomUsers s1)) s1
  | None => s1
  end.

(** The [switch msg.Type] of the read loop, for the handler that owns [c]. *)
Definition dispatch (c : loc) (msg : Message) (s : State) : State :=
  if String.eqb (mType msg) "join" then
    let s1 := set_heap (<[c := mkClient (cID (deref s c)) (cConn (deref s c))
                                        (mRoom msg) (cMicOn (deref s c))]> (heap s)) s in
    let s2 := set_roomUsers
                (<[mRoom msg := members (mRoom msg) s1 ++ [cID (deref s1 c)]]>
                   (roomUsers s1)) s1 in
    broadcastUserList (mRoom msg) s2
  else if String.eqb (mType msg) "leave" then
    broadcastUserList (mRoom msg) (removeClient c s)
  else if String.eqb (mType msg) "mic" then
    match mMicOn msg with
    | Some on =>
        let s1 := set_heap (<[c := mkClient (cID (deref s c)) (cConn (deref s c))
                                            (cRoom (deref s c)) on]> (heap s)) s in
        broadcastUserList (cRoom (deref s1 c)) s1
    | None => s
    end
  else if String.eqb (mType msg) "offer" || String.eqb (mType msg) "answer"
          || String.eqb (mType msg) "candidate" then
    sendTo (mTo msg) (stampFrom (cID (deref s c)) msg) s
  else s.

(** What one call of [conn.ReadMessage] followed by [json.Unmarshal] gives
    while the connection is readable. *)
Inductive Frame :=
| Malformed
| Decoded (msg : Message).

(** The code after the loop. *)
Definition teardown (c : loc) (s : State) : State :=
  let s1 := removeClient c s in
  broadcastUserList (cRoom (deref s1 c)) s1.

(** The [for] loop of [handleWebSocket] and the code after it; [frames] are
    the frames read before [ReadMessage] fails. *)
Fixpoint serve (c : loc) (frames : list Frame) (s : State) : State :=
  match frames with
  | [] => teardown c s
  | Malformed :: rest => serve c rest s
  | Decoded msg :: rest => serve c rest (dispatch c msg s)
  end.

(** The head of [handleWebSocket] after a successful upgrade: [id] is the
    string [uuid.New] returned, [conn] the upgraded connection. *)
Definition accept (id : string) (conn : ConnHandle) (s : State) : loc * State :=
  let c := length (heap s) in
  let s1 := set_heap (heap s ++ [mkClient id conn "" true]) s in
  let s2 := set_clients (<[id := c]> (clients s1)) s1 in
  (c, sendMessage conn (idMessage id) s2).

(** [handleWebSocket] for one connection run to its end. *)
Definition handleWebSocket (id : string) (conn : ConnHandle) (frames : list Frame)
    (s : State) : State :=
  let '(c, s1) := accept id conn s in serve c frames s1.

(** ** Several connections *)

(** What the handlers do, one loop iteration at a time. *)
Inductive Event :=
| EAccept (id : string) (conn : ConnHandle)
| EFrame (c : loc) (msg : Message)
| EClosed (c : loc).

(** An event of a handler is possible only for a client that was allocated. *)
Definition step (ev : Event) (s : State) : option State :=
  match ev with
  | EAccept id conn => Some (snd (accept id conn s))
  | EFrame c msg =>
      if decide (c < length (heap s)) then Some (dispatch c msg s) else None
  | EClosed c =>
      if decide (c < length (heap s)) then Some (teardown c s) else None
  end.

Fixpoint run (evs : list Event) (s : State) : option State :=
  match evs with
  | [] => Some s
  | ev :: rest =>
      match step ev s with
      | Some s' => run rest s'
      | None => None
      end
  end.

Definition reachable (s : State) : Prop :=
  ∃ evs, run evs initial = Some s.

(** The events of the handler that owns [c], for the frames it reads. *)
Definition eventsOf (c : loc) (frames : list Frame) : list Event :=
  omap (fun f => match f with
                 | Malformed => None
                 | Decoded msg => Some (EFrame c msg)
                 end) frames ++ [EClosed c].

(** The messages among the frames read, in order. *)
Definition decoded (frames : list Frame) : list Message :=
  omap (fun f => match f with Malformed => None | Decoded msg => Some msg end) frames.

(** Every registered identifier points to an allocated client that carries
    that identifier. *)
Definition wf (s : State) : Prop :=
  ∀ id c, clients s !! id = Some c →
          c < length (heap s) ∧ cID (deref s c) = id.

(** ** Vocabulary of the statements *)

(** The three types of the relay case. *)
Definition isRelay (t : string) : Prop :=
  t = "offer" ∨ t = "answer" ∨ t = "candidate".

(** The six types that have a case in the switch. *)
Definition isKnown (t : string) : Prop :=
  t = "join" ∨ t = "leave" ∨ t = "mic" ∨ isRelay t.

#[global] Instance isRelay_dec t : Decision (isRelay t).
Proof. unfold isRelay. apply _. Defined.
#[global] Instance isKnown_dec t : Decision (isKnown t).
Proof. unfold isKnown. apply _. Defined.

(** The entry of the roster for a listed identifier, if it is registered. *)
Definition rosterEntry (s : State) (id : string) : option User :=
  (fun c => mkUser (cID (deref s c)) (cMicOn (deref s c))) <$> clients s !! id.

(** The frame the second loop writes for a listed identifier. *)
Definition fanoutEntry (s : State) (users : list User) (id : string)
    : option (ConnHandle * Message) :=
  (fun c => (cConn (deref s c), userListMessage users)) <$> clients s !! id.

(** From [s] to [s'] no client object was lost and none changed its
    identifier or its connection. *)
Definition stable (s s' : State) : Prop :=
  (length (heap s) ≤ length (heap s'))%nat
  ∧ ∀ p, p < length (heap s) →
         cID (deref s' p) = cID (deref s p) ∧ cConn (deref s' p) = cConn (deref s p).

(** Where a frame on the wire comes from, after the events [evs] led to
    [s]: it is the identifier message of an accepted connection, written to
    that connection; or a roster; or a message [msg] that the handler of
    client [c] read, written to the connection of the client [t] that
    carries the identifier [msg] is addressed to, with [from] the
    identifier of [c] and the payloads compacted. *)
Definition origin (evs : list Event) (s : State) (f : ConnHandle * Message) : Prop :=
  (∃ id, EAccept id f.1 ∈ evs ∧ f.2 = mkMessage "id" "" "" "" "" "" "" None [] id)
  ∨ (∃ users, f.2 = mkMessage "user_list" "" "" "" "" "" "" None users "")
  ∨ (∃ (c t : loc) msg,
       EFrame c msg ∈ evs ∧ isRelay (mType msg)
       ∧ c < length (heap s) ∧ t < length (heap s)
       ∧ cID (deref s t) = mTo msg ∧ f.1 = cConn (deref s t)
       ∧ f.2 = mkMessage (mType msg) (mRoom msg) (mTo msg) (cID (deref s c))
                 (compact (mOffer msg)) (compact (mAnswer msg))
                 (compact (mCandidate msg)) (mMicOn msg) (mUsers msg) (mID msg)).

(** Every listed identifier is the identifier of an allocated client. *)
Definition listedIssued (s : State) : Prop :=
  ∀ room id, id ∈ members room s →
             ∃ p, p < length (heap s) ∧ cID (deref s p) = id.

(** ** Scenarios *)

(** Messages a client sends. *)
Definition joinMsg (room : string) : Message :=
  mkMessage "join" room "" "" "" "" "" None [] "".
Definition leaveMsg (room : string) : Message :=
  mkMessage "leave" room "" "" "" "" "" None [] "".
Definition offerMsg (to from : string) (sdp : RawMessage) : Message :=
  mkMessage "offer" "" to from sdp "" "" None [] "".
Definition micMsg (on : option bool) : Message :=
  mkMessage "mic" "" "" "" "" "" "" on [] "".

(** A accepted on connection 10, then joins "r1". *)
Definition oneInRoom : State :=
  default initial (run [EAccept "A" 10; EFrame 0 (joinMsg "r1")] initial).

(** A and B in "r1". *)
Definition twoInRoom : State :=
  default initial
    (run [EAccept "A" 10; EFrame 0 (joinMsg "r1");
          EAccept "B" 11; EFrame 1 (joinMsg "r1")] initial).

(** A joined "r1", then "r2", then its connection closed; B is in "r1". *)
Definition afterSwitchAndClose : State :=
  default initial
    (run [EAccept "A" 10; EFrame 0 (joinMsg "r1"); EAccept "B" 11;
          EFrame 1 (joinMsg "r1"); EFrame 0 (joinMsg "r2"); EClosed 0] initial).

(** A and B in "r1"; A sends B an offer that claims to come from "forged". *)
Definition afterForgedOffer : State :=
  default initial
    (run [EAccept "A" 10; EFrame 0 (joinMsg "r1"); EAccept "B" 11;
          EFrame 1 (joinMsg "r1"); EFrame 0 (offerMsg "B" "forged" "v=0")] initial).

(** A joins "r1" twice. *)
Definition joinedTwice : State :=
  default initial
    (run [EAccept "A" 10; EFrame 0 (joinMsg "r1"); EFrame 0 (joinMsg "r1")] initial).

(** B is in "r1"; A leaves, which takes it out of the registry, and then
    joins "r1" on the connection it still reads from. *)
Definition rejoinedAfterLeave : State :=
  default initial
    (run [EAccept "A" 10; EAccept "B" 11; EFrame 1 (joinMsg "r1");
          EFrame 0 (leaveMsg ""); EFrame 0 (joinMsg "r1")] initial).

(** ** The encoder *)



(** The two messages the server builds have no payload: the frame carries
    them as they are. *)
Lemma encodeMessage_idMessage id : encodeMessage (idMessage id) = idMessage id.
Proof. reflexivity. Qed.

Lemma encodeMessage_userListMessage users :
  encodeMessage (userListMessage users) = userListMessage users.
Proof. reflexivity. Qed.

(** ** The loops as list functions *)

(** A loop that appends what [f] keeps is [omap f] after the accumulator. *)
Lemma foldl_snoc_omap {A B} (f : A → option B) (l : list A) (acc : list B) :
  foldl (fun out x => match f x with Some y => out ++ [y] | None => out end) acc l
  = acc ++ omap f l.
Proof.
  revert acc. induction l as [|x l IH]; intros acc; simpl.
  - by rewrite app_nil_r.
  - destruct (f x) as [y|]; rewrite IH; [|done].
    by rewrite <- app_assoc.
Qed.

Lemma foldl_snoc_filter {A} (P : A → Prop) `{!∀ x, Decision (P x)}
    (l : list A) (acc : list A) :
  foldl (fun out x => if decide (P x) then out ++ [x] else out) acc l
  = acc ++ filter P l.
Proof.
  revert acc. induction l as [|x l IH]; intros acc; simpl.
  - by rewrite app_nil_r.
  - rewrite IH, filter_cons. destruct (decide (P x)); [|done].
    by rewrite <- app_assoc.
Qed.

Lemma roster_loop s (l : list string) (acc : list User) :
  foldl (fun users id =>
           match clients s !! id with
           | Some c => users ++ [mkUser (cID (deref s c)) (cMicOn (deref s c))]
           | None => users
           end) acc l
  = acc ++ omap (rosterEntry s) l.
Proof.
  rewrite <- foldl_snoc_omap. revert acc.
  induction l as [|id l IH]; intros acc; [done|].
  simpl. rewrite IH. unfold rosterEntry.
  by destruct (clients s !! id).
Qed.

Lemma roster_omap room s : roster room s = omap (rosterEntry s) (members room s).
Proof. unfold roster. by rewrite roster_loop. Qed.

Lemma fanout_loop users s l :
  foldl (fun st id =>
           match clients st !! id with
           | Some c => sendMessage (cConn (deref st c)) (userListMessage users) st
           | None => st
           end) s l
  = set_wire (wire s ++ omap (fanoutEntry s users) l) s.
Proof.
  revert s. induction l as [|id l IH]; intros s; simpl.
  - destruct s. unfold set_wire. simpl. by rewrite app_nil_r.
  - unfold fanoutEntry at 1. destruct (clients s !! id) as [c|] eqn:Hc; simpl.
    + rewrite IH. unfold sendMessage, set_wire. simpl.
      rewrite <- app_assoc. done.
    + apply IH.
Qed.

Lemma broadcastUserList_wire room s :
  broadcastUserList room s
  = set_wire (wire s ++ omap (fanoutEntry s (roster room s)) (members room s)) s.
Proof. unfold broadcastUserList. apply fanout_loop. Qed.

Lemma broadcastUserList_heap room s : heap (broadcastUserList room s) = heap s.
Proof. by rewrite broadcastUserList_wire. Qed.
Lemma broadcastUserList_clients room s : clients (broadcastUserList room s) = clients s.
Proof. by rewrite broadcastUserList_wire. Qed.
Lemma broadcastUserList_roomUsers room s :
  roomUsers (broadcastUserList room s) = roomUsers s.
Proof. by rewrite broadcastUserList_wire. Qed.
Lemma broadcastUserList_members room r s :
  members r (broadcastUserList room s) = members r s.
Proof. unfold members. by rewrite broadcastUserList_roomUsers. Qed.
Lemma broadcastUserList_deref room s c : deref (broadcastUserList room s) c = deref s c.
Proof. unfold deref. by rewrite broadcastUserList_heap. Qed.

(** ** [removeClient] *)

Lemma removeClient_heap c s : heap (removeClient c s) = heap s.
Proof. unfold removeClient. simpl. by destruct (roomUsers s !! _). Qed.

Lemma removeClient_wire c s : wire (removeClient c s) = wire s.
Proof. unfold removeClient. simpl. by destruct (roomUsers s !! _). Qed.

Lemma removeClient_deref c s p : deref (removeClient c s) p = deref s p.
Proof. unfold deref. by rewrite removeClient_heap. Qed.

Lemma removeClient_clients c s :
  clients (removeClient c s) = delete (cID (deref s c)) (clients s).
Proof. unfold removeClient. simpl. by destruct (roomUsers s !! _). Qed.

Lemma removeClient_roomUsers c s :
  roomUsers (removeClient c s)
  = match roomUsers s !! cRoom (deref s c) with
    | Some users =>
        <[cRoom (deref s c) := filter (λ i, i ≠ cID (deref s c)) users]> (roomUsers s)
    | None => roomUsers s
    end.
Proof.
  unfold removeClient. simpl. destruct (roomUsers s !! _); [|done].
  simpl. by rewrite foldl_snoc_filter.
Qed.

Lemma removeClient_members_room c s :
  members (cRoom (deref s c)) (removeClient c s)
  = filter (λ i, i ≠ cID (deref s c)) (members (cRoom (deref s c)) s).
Proof.
  unfold members. rewrite removeClient_roomUsers.
  destruct (roomUsers s !! cRoom (deref s c)) as [users|] eqn:Hr.
  - by rewrite lookup_insert_eq.
  - by rewrite Hr.
Qed.

Lemma removeClient_roomUsers_other c s r :
  r ≠ cRoom (deref s c) → roomUsers (removeClient c s) !! r = roomUsers s !! r.
Proof.
  intros Hr. rewrite removeClient_roomUsers.
  destruct (roomUsers s !! cRoom (deref s c)); [|done].
  by rewrite lookup_insert_ne.
Qed.

Lemma removeClient_members_other c s r :
  r ≠ cRoom (deref s c) → members r (removeClient c s) = members r s.
Proof. intros Hr. unfold members. by rewrite removeClient_roomUsers_other. Qed.

(** What a broadcast and a removal leave alone, as rewrite rules. *)
Create Rewrite HintDb frame.
#[global] Hint Rewrite broadcastUserList_heap broadcastUserList_clients
  broadcastUserList_roomUsers broadcastUserList_members broadcastUserList_deref
  removeClient_heap removeClient_wire removeClient_deref removeClient_clients
  : frame.

Lemma State_eq s1 s2 :
  heap s1 = heap s2 → clients s1 = clients s2 →
  roomUsers s1 = roomUsers s2 → wire s1 = wire s2 → s1 = s2.
Proof. destruct s1, s2. simpl. by intros -> -> -> ->. Qed.

Lemma removeClient_idemp c s : removeClient c (removeClient c s) = removeClient c s.
Proof.
  apply State_eq.
  - by rewrite !removeClient_heap.
  - rewrite !removeClient_clients, removeClient_deref. apply delete_delete_eq.
  - rewrite (removeClient_roomUsers c (removeClient c s)), !removeClient_deref.
    rewrite removeClient_roomUsers.
    destruct (roomUsers s !! cRoom (deref s c)) as [users|] eqn:Hr.
    + rewrite lookup_insert_eq, insert_insert_eq.
      f_equal. apply list_filter_filter_l. done.
    + by rewrite Hr.
  - by rewrite !removeClient_wire.
Qed.

(** ** The cases of [dispatch] *)

(** Assigning a field other than [ID] through [c] leaves every [ID] as it was. *)
Lemma insert_same_ID (h : list Client) (c p : loc) (cl : Client) :
  cID cl = cID (h !!! c) → cID (<[c := cl]> h !!! p) = cID (h !!! p).
Proof.
  intros Hid. rewrite list_lookup_total_insert.
  case_decide as Hc; [|done]. destruct Hc as [<- _]. done.
Qed.

Lemma dispatch_join c msg s :
  mType msg = "join" →
  dispatch c msg s
  = broadcastUserList (mRoom msg)
      (mkState (<[c := mkClient (cID (deref s c)) (cConn (deref s c)) (mRoom msg)
                                (cMicOn (deref s c))]> (heap s))
               (clients s)
               (<[mRoom msg := members (mRoom msg) s ++ [cID (deref s c)]]> (roomUsers s))
               (wire s)).
Proof.
  intros Ht. unfold dispatch. rewrite Ht. simpl.
  f_equal. unfold set_roomUsers, set_heap, members, deref. simpl.
  by rewrite insert_same_ID.
Qed.

Lemma dispatch_leave c msg s :
  mType msg = "leave" →
  dispatch c msg s = broadcastUserList (mRoom msg) (removeClient c s).
Proof. intros Ht. unfold dispatch. by rewrite Ht. Qed.

Lemma dispatch_mic c msg s :
  mType msg = "mic" →
  dispatch c msg s
  = match mMicOn msg with
    | Some on =>
        broadcastUserList
          (cRoom (<[c := mkClient (cID (deref s c)) (cConn (deref s c))
                                  (cRoom (deref s c)) on]> (heap s) !!! c))
          (mkState (<[c := mkClient (cID (deref s c)) (cConn (deref s c))
                                    (cRoom (deref s c)) on]> (heap s))
                   (clients s) (roomUsers s) (wire s))
    | None => s
    end.
Proof. intros Ht. unfold dispatch. by rewrite Ht. Qed.

Lemma dispatch_relay c msg s :
  isRelay (mType msg) →
  dispatch c msg s = sendTo (mTo msg) (stampFrom (cID (deref s c)) msg) s.
Proof.
  intros Ht. unfold dispatch.
  destruct Ht as [Ht|[Ht|Ht]]; by rewrite Ht.
Qed.

Lemma dispatch_unknown c msg s :
  ¬ isKnown (mType msg) → dispatch c msg s = s.
Proof.
  intros Hn. unfold dispatch, isKnown, isRelay in *.
  repeat match goal with
         | |- context [String.eqb ?a ?b] =>
             destruct (String.eqb_spec a b); [exfalso; tauto|]
         end.
  done.
Qed.

(** ** The registry invariant *)

(** A step that keeps the length of the heap and every [ID], and registers
    nothing new, keeps [wf]. *)
Lemma wf_shrink s s' :
  length (heap s') = length (heap s) →
  (∀ p, cID (deref s' p) = cID (deref s p)) →
  clients s' ⊆ clients s →
  wf s → wf s'.
Proof.
  intros Hlen Hid Hsub Hwf id c Hc.
  destruct (Hwf id c) as [Hlt Heq].
  - eapply lookup_weaken; eauto.
  - rewrite Hlen, Hid. done.
Qed.

Lemma wf_broadcastUserList room s : wf s → wf (broadcastUserList room s).
Proof.
  apply wf_shrink.
  - by rewrite broadcastUserList_heap.
  - intros p. by rewrite broadcastUserList_deref.
  - by rewrite broadcastUserList_clients.
Qed.

Lemma wf_removeClient c s : wf s → wf (removeClient c s).
Proof.
  apply wf_shrink.
  - by rewrite removeClient_heap.
  - intros p. by rewrite removeClient_deref.
  - rewrite removeClient_clients. apply delete_subseteq.
Qed.

Lemma wf_sendTo id msg s : wf s → wf (sendTo id msg s).
Proof. unfold sendTo. by destruct (clients s !! id). Qed.

Lemma wf_dispatch c msg s : wf s → wf (dispatch c msg s).
Proof.
  intros Hwf.
  destruct (decide (isKnown (mType msg))) as [[Ht|[Ht|[Ht|Ht]]]|Hn].
  - rewrite dispatch_join by done. apply wf_broadcastUserList.
    revert Hwf. apply wf_shrink; simpl; [by rewrite length_insert| |done].
    intros p. unfold deref. simpl. by apply insert_same_ID.
  - rewrite dispatch_leave by done.
    by apply wf_broadcastUserList, wf_removeClient.
  - rewrite dispatch_mic by done. destruct (mMicOn msg); [|done].
    apply wf_broadcastUserList.
    revert Hwf. apply wf_shrink; simpl; [by rewrite length_insert| |done].
    intros p. unfold deref. simpl. by apply insert_same_ID.
  - rewrite dispatch_relay by done. by apply wf_sendTo.
  - by rewrite dispatch_unknown.
Qed.

Lemma wf_teardown c s : wf s → wf (teardown c s).
Proof. intros Hwf. by apply wf_broadcastUserList, wf_removeClient. Qed.

Lemma wf_accept id conn s : wf s → wf (snd (accept id conn s)).
Proof.
  intros Hwf id' c. unfold accept, deref. simpl.
  rewrite length_app. simpl.
  destruct (decide (id = id')) as [<-|Hne].
  - rewrite lookup_insert_eq. intros [= <-]. split; [lia|].
    by rewrite list_lookup_total_middle.
  - rewrite lookup_insert_ne by done. intros Hc.
    destruct (Hwf id' c Hc) as [Hlt Hid]. split; [lia|].
    by rewrite lookup_total_app_l.
Qed.

Lemma wf_step ev s s' : step ev s = Some s' → wf s → wf s'.
Proof.
  destruct ev as [id conn|c msg|c]; simpl.
  - intros [= <-]. apply wf_accept.
  - case_decide; [|done]. intros [= <-]. apply wf_dispatch.
  - case_decide; [|done]. intros [= <-]. apply wf_teardown.
Qed.

Lemma wf_run evs s s' : run evs s = Some s' → wf s → wf s'.
Proof.
  revert s. induction evs as [|ev evs IH]; intros s; simpl.
  - by intros [= <-].
  - destruct (step ev s) as [s1|] eqn:Hstep; [|done].
    intros Hrun Hwf. eapply IH; [done|]. by eapply wf_step.
Qed.

Lemma reachable_wf s : reachable s → wf s.
Proof.
  intros [evs Hrun]. eapply wf_run; [done|].
  intros id c. unfold initial. simpl. by rewrite lookup_empty.
Qed.

(** ** One handler as a run of events *)

Lemma sendTo_heap id msg s : heap (sendTo id msg s) = heap s.
Proof. unfold sendTo. by destruct (clients s !! id). Qed.

Lemma dispatch_heap_length c msg s :
  length (heap (dispatch c msg s)) = length (heap s).
Proof.
  destruct (decide (isKnown (mType msg))) as [[Ht|[Ht|[Ht|Ht]]]|Hn].
  - rewrite dispatch_join by done. autorewrite with frame. simpl.
    apply length_insert.
  - rewrite dispatch_leave by done. by autorewrite with frame.
  - rewrite dispatch_mic by done. destruct (mMicOn msg); [|done].
    autorewrite with frame. simpl. apply length_insert.
  - rewrite dispatch_relay by done. by rewrite sendTo_heap.
  - by rewrite dispatch_unknown.
Qed.

(** The loop and the code after it, for a client that was allocated, are
    the run of its events. *)
Lemma run_eventsOf c frames s :
  c < length (heap s) → run (eventsOf c frames) s = Some (serve c frames s).
Proof.
  revert s. induction frames as [|[|msg] frames IH]; intros s Hc.
  - unfold eventsOf. simpl. by rewrite decide_True.
  - by apply IH.
  - unfold eventsOf. simpl. rewrite decide_True by done.
    apply IH. by rewrite dispatch_heap_length.
Qed.

Lemma run_handleWebSocket id conn frames s :
  run (EAccept id conn :: eventsOf (length (heap s)) frames) s
  = Some (handleWebSocket id conn frames s).
Proof.
  unfold handleWebSocket. simpl. apply run_eventsOf.
  simpl. rewrite length_app. simpl. lia.
Qed.

(** ** The scenario of the protocol description *)

(** A connects and joins "r1"; B connects and joins "r1"; A switches its
    microphone off; B's connection closes.  The frames are listed in the
    order they are written. *)
Example scenario_roster_updates :
  wire <$> run [EAccept "A" 10; EFrame 0 (joinMsg "r1"); EAccept "B" 11;
                EFrame 1 (joinMsg "r1");
                EFrame 0 (mkMessage "mic" "" "" "" "" "" "" (Some false) [] "");
                EClosed 1] initial
  = Some [(10, idMessage "A");
          (10, userListMessage [mkUser "A" true]);
          (11, idMessage "B");
          (10, userListMessage [mkUser "A" true; mkUser "B" true]);
          (11, userListMessage [mkUser "A" true; mkUser "B" true]);
          (10, userListMessage [mkUser "A" false; mkUser "B" true]);
          (11, userListMessage [mkUser "A" false; mkUser "B" true]);
          (10, userListMessage [mkUser "A" false])].
Proof. vm_compute. reflexivity. Qed.

Lemma filter_ne_id (id : string) (l : list string) :
  id ∉ l → filter (λ i, i ≠ id) l = l.
Proof.
  induction l as [|x l IH]; [done|].
  intros Hn. apply not_elem_of_cons in Hn as [Hx Hl].
  rewrite filter_cons_True by done. by rewrite IH.
Qed.

Lemma not_elem_of_filter_ne (id : string) (l : list string) :
  id ∉ filter (λ i, i ≠ id) l.
Proof. rewrite list_elem_of_filter. by intros [? _]. Qed.

(** ** Join *)

(** C1, the claim as stated fails: A, already listed in "r1", handles a
    second join for "r1" and is listed twice. *)
Lemma join_twice_duplicates :
  ∃ s, run [EAccept "A" 10; EFrame 0 (joinMsg "r1")] initial = Some s
       ∧ members "r1" s = ["A"]
       ∧ members "r1" (dispatch 0 (joinMsg "r1") s) = ["A"; "A"]
       ∧ bool_decide (NoDup (members "r1" (dispatch 0 (joinMsg "r1") s))) = false.
Proof.
  exists oneInRoom. repeat split; vm_compute; reflexivity.
Qed.

(** What a join does to the member lists. *)
Lemma join_members c msg s :
  mType msg = "join" →
  members (mRoom msg) (dispatch c msg s)
  = members (mRoom msg) s ++ [cID (deref s c)]
  ∧ (∀ r, r ≠ mRoom msg → members r (dispatch c msg s) = members r s).
Proof.
  intros Ht. rewrite dispatch_join by done. split.
  - rewrite broadcastUserList_members. unfold members at 1. simpl.
    by rewrite lookup_insert_eq.
  - intros r Hr. rewrite broadcastUserList_members. unfold members. simpl.
    by rewrite lookup_insert_ne.
Qed.

(** C1, amended: a join message appends the identifier of the connection to
    the end of the named room's member list whether or not it is already
    listed there, and changes no other room's list; when it was already
    listed, the list holds it twice afterwards. *)
Theorem join_appends_unconditionally c msg s :
  mType msg = "join" →
  members (mRoom msg) (dispatch c msg s)
  = members (mRoom msg) s ++ [cID (deref s c)]
  ∧ (∀ r, r ≠ mRoom msg → members r (dispatch c msg s) = members r s)
  ∧ (cID (deref s c) ∈ members (mRoom msg) s →
     ¬ NoDup (members (mRoom msg) (dispatch c msg s))).
Proof.
  intros Ht. destruct (join_members c msg s Ht) as (Hm & Hother).
  split; [done|]. split; [done|].
  intros Hin. rewrite Hm. intros Hnd.
  apply NoDup_app in Hnd as (_ & Hdisj & _).
  apply (Hdisj _ Hin). by apply list_elem_of_singleton.
Qed.

Lemma join_appends_unconditionally_witness :
  mType (joinMsg "r1") = "join"
  ∧ members "r1" (dispatch 0 (joinMsg "r1") oneInRoom)
    = members "r1" oneInRoom ++ [cID (deref oneInRoom 0)].
Proof.
  split; [reflexivity|].
  exact (proj1 (join_appends_unconditionally 0 (joinMsg "r1") oneInRoom eq_refl)).
Defined.

(** ** Removal *)

(** C2, the claim as stated fails: A joined "r1" and then "r2"; after
    [removeClient], A is unregistered and gone from "r2", yet still listed
    in "r1". *)
Lemma remove_keeps_earlier_room :
  ∃ s, run [EAccept "A" 10; EFrame 0 (joinMsg "r1"); EFrame 0 (joinMsg "r2")] initial
       = Some s
       ∧ cID (deref s 0) = "A"
       ∧ clients (removeClient 0 s) !! "A" = None
       ∧ members "r2" (removeClient 0 s) = []
       ∧ members "r1" (removeClient 0 s) = ["A"].
Proof.
  eexists. split; [vm_compute; reflexivity|].
  repeat split; vm_compute; reflexivity.
Qed.

(** C2, amended: after [removeClient] the identifier of the client is not
    registered and is not in the member list of the room named in the
    client's room field; the lists of all other rooms are as before (so the
    identifier stays in any other room that listed it); a second call
    changes no state. *)
Theorem removeClient_post c s :
  clients (removeClient c s) !! cID (deref s c) = None
  ∧ (cID (deref s c) ∉ members (cRoom (deref s c)) (removeClient c s))
  ∧ (∀ r, r ≠ cRoom (deref s c) → members r (removeClient c s) = members r s)
  ∧ removeClient c (removeClient c s) = removeClient c s.
Proof.
  split; [|split; [|split]].
  - rewrite removeClient_clients. apply lookup_delete_eq.
  - rewrite removeClient_members_room. apply not_elem_of_filter_ne.
  - intros r Hr. by apply removeClient_members_other.
  - apply removeClient_idemp.
Qed.

(** ** Leave *)

(** C3, the claim as stated fails: A in "r1" handles a leave for "r1"; its
    identifier is filtered out of "r1", but the room field still reads "r1"
    and A is no longer registered, so an offer addressed to A afterwards is
    dropped. *)
Lemma leave_unregisters_and_keeps_room :
  ∃ s, run [EAccept "A" 10; EFrame 0 (joinMsg "r1");
            EAccept "B" 11; EFrame 1 (joinMsg "r1")] initial = Some s
       ∧ clients s !! "A" = Some 0
       ∧ members "r1" (dispatch 0 (leaveMsg "r1") s) = ["B"]
       ∧ cRoom (deref (dispatch 0 (leaveMsg "r1") s) 0) = "r1"
       ∧ clients (dispatch 0 (leaveMsg "r1") s) !! "A" = None
       ∧ dispatch 1 (offerMsg "A" "" "sdp") (dispatch 0 (leaveMsg "r1") s)
         = dispatch 0 (leaveMsg "r1") s.
Proof.
  eexists. split; [vm_compute; reflexivity|].
  repeat split; vm_compute; reflexivity.
Qed.

(** C3, amended: a leave message filters the identifier of the connection
    out of the member list of the room named in its room field (the
    membership table does not change when it is not listed there) and
    leaves every other room's list alone; no [Client] object changes, so the
    room field is not cleared; the identifier is deleted from the registry;
    and when the message names the room of the room field, the state
    after the message is that of a broadcast for the room just left, run
    after the removal. *)
Theorem leave_semantics c msg s :
  mType msg = "leave" →
  let id := cID (deref s c) in
  let room := cRoom (deref s c) in
  let s' := dispatch c msg s in
  members room s' = filter (λ i, i ≠ id) (members room s)
  ∧ (∀ r, r ≠ room → roomUsers s' !! r = roomUsers s !! r)
  ∧ (id ∉ members room s → roomUsers s' = roomUsers s)
  ∧ heap s' = heap s
  ∧ clients s' = delete id (clients s)
  ∧ (mRoom msg = room → s' = broadcastUserList room (removeClient c s)).
Proof.
  intros Ht id room s'. subst s'. rewrite dispatch_leave by done.
  autorewrite with frame.
  split; [|split; [|split; [|split; [|split]]]].
  - apply removeClient_members_room.
  - intros r Hr. by apply removeClient_roomUsers_other.
  - intros Hn. rewrite removeClient_roomUsers. fold id room.
    unfold members in Hn.
    destruct (roomUsers s !! room) as [users|] eqn:Hr; [|done].
    simpl in Hn. rewrite filter_ne_id by done. by apply insert_id.
  - done.
  - done.
  - by intros ->.
Qed.

Lemma leave_semantics_witness :
  mType (leaveMsg "r1") = "leave"
  ∧ clients (dispatch 0 (leaveMsg "r1") twoInRoom)
    = delete (cID (deref twoInRoom 0)) (clients twoInRoom).
Proof.
  split; [reflexivity|].
  exact (proj1 (proj2 (proj2 (proj2 (proj2
           (leave_semantics 0 (leaveMsg "r1") twoInRoom eq_refl)))))).
Defined.

(** ** Roster and broadcast *)

Lemma rosterEntry_ID s id u : wf s → rosterEntry s id = Some u → uID u = id.
Proof.
  intros Hwf. unfold rosterEntry.
  destruct (clients s !! id) as [c|] eqn:Hc; [|done].
  simpl. intros [= <-]. simpl. by destruct (Hwf id c Hc).
Qed.

Lemma omap_cons {A B} (f : A → option B) (x : A) (l : list A) :
  omap f (x :: l) = match f x with Some y => y :: omap f l | None => omap f l end.
Proof. done. Qed.

Lemma roster_IDs_filter s (l : list string) :
  wf s →
  uID <$> omap (rosterEntry s) l = filter (λ id, is_Some (clients s !! id)) l.
Proof.
  intros Hwf. induction l as [|id l IH]; [done|].
  rewrite omap_cons, filter_cons.
  destruct (rosterEntry s id) as [u|] eqn:Hu.
  - pose proof (rosterEntry_ID s id u Hwf Hu) as Hid.
    unfold rosterEntry in Hu.
    destruct (clients s !! id) as [c|] eqn:Hc; [|done].
    rewrite decide_True by eauto. rewrite fmap_cons. by rewrite Hid, IH.
  - unfold rosterEntry in Hu.
    destruct (clients s !! id) as [c|] eqn:Hc; [done|].
    rewrite decide_False by (by intros [? ?]). done.
Qed.

(** C4: in every reachable state, for every room, each entry of the roster
    names a registered identifier; the roster lists exactly the members
    that are registered, in member-list order, the others being skipped;
    the broadcast writes that roster and changes neither the registry nor
    the membership table. *)
Theorem roster_only_registered s room :
  reachable s →
  Forall (λ u, is_Some (clients s !! uID u)) (roster room s)
  ∧ uID <$> roster room s
    = filter (λ id, is_Some (clients s !! id)) (members room s)
  ∧ clients (broadcastUserList room s) = clients s
  ∧ roomUsers (broadcastUserList room s) = roomUsers s
  ∧ Forall (λ f, mUsers f.2 = roster room s)
           (drop (length (wire s)) (wire (broadcastUserList room s))).
Proof.
  intros Hreach. pose proof (reachable_wf s Hreach) as Hwf.
  assert (uID <$> roster room s
          = filter (λ id, is_Some (clients s !! id)) (members room s)) as Hids.
  { rewrite roster_omap. by apply roster_IDs_filter. }
  split; [|split; [done|split; [|split]]].
  - apply Forall_forall. intros u Hu.
    assert (uID u ∈ uID <$> roster room s) as Hin by (by apply list_elem_of_fmap_2).
    rewrite Hids in Hin. by apply list_elem_of_filter in Hin as [? _].
  - apply broadcastUserList_clients.
  - apply broadcastUserList_roomUsers.
  - rewrite broadcastUserList_wire. simpl. rewrite drop_app_length.
    apply Forall_forall. intros f Hf.
    apply list_elem_of_omap in Hf as (id & _ & Hf). unfold fanoutEntry in Hf.
    destruct (clients s !! id); [|done]. simpl in Hf. by injection Hf as <-.
Qed.

Lemma afterSwitchAndClose_reachable : reachable afterSwitchAndClose.
Proof.
  exists [EAccept "A" 10; EFrame 0 (joinMsg "r1"); EAccept "B" 11;
          EFrame 1 (joinMsg "r1"); EFrame 0 (joinMsg "r2"); EClosed 0].
  vm_compute. reflexivity.
Qed.

Lemma roster_only_registered_witness :
  reachable afterSwitchAndClose
  ∧ members "r1" afterSwitchAndClose = ["A"; "B"]
  ∧ clients afterSwitchAndClose !! "A" = None
  ∧ uID <$> roster "r1" afterSwitchAndClose
    = filter (λ id, is_Some (clients afterSwitchAndClose !! id))
             (members "r1" afterSwitchAndClose).
Proof.
  split; [exact afterSwitchAndClose_reachable|].
  split; [vm_compute; reflexivity|]. split; [vm_compute; reflexivity|].
  exact (proj1 (proj2 (roster_only_registered afterSwitchAndClose "r1"
                         afterSwitchAndClose_reachable))).
Defined.

(** C8, the claim as stated fails: the frames of one call follow the
    entries of the member list, not the members.  A that joined "r1" twice
    is listed twice, and one call writes two frames to its connection; A
    that left and joined again is listed but not registered, and the call
    writes a frame to B only, though the handler of A still reads from
    connection 10. *)
Lemma broadcast_frames_follow_list_entries :
  members "r1" joinedTwice = ["A"; "A"]
  ∧ drop (length (wire joinedTwice)) (wire (broadcastUserList "r1" joinedTwice))
    = [(10, mkMessage "user_list" "" "" "" "" "" "" None
              [mkUser "A" true; mkUser "A" true] "");
       (10, mkMessage "user_list" "" "" "" "" "" "" None
              [mkUser "A" true; mkUser "A" true] "")]
  ∧ members "r1" rejoinedAfterLeave = ["B"; "A"]
  ∧ clients rejoinedAfterLeave !! "A" = None
  ∧ cConn (deref rejoinedAfterLeave 0) = 10
  ∧ drop (length (wire rejoinedAfterLeave))
         (wire (broadcastUserList "r1" rejoinedAfterLeave))
    = [(11, mkMessage "user_list" "" "" "" "" "" "" None [mkUser "B" true] "")].
Proof. repeat split; vm_compute; reflexivity. Qed.

(** C8, amended: one call of [broadcastUserList] computes the roster once,
    from the state at the call: it is the list of the identifier and the
    microphone flag of the clients that the entries of the member list are
    registered to, in list order.  The call writes, for each of these entries and in
    the same order, one frame to the connection of that client, and every
    frame is the [user_list] message whose users are that roster, all other
    fields empty.  Client objects, registry and membership table are as
    before. *)
Theorem broadcast_single_snapshot room s :
  let live := omap (λ id, clients s !! id) (members room s) in
  let users := (λ p, mkUser (cID (deref s p)) (cMicOn (deref s p))) <$> live in
  let frame := mkMessage "user_list" "" "" "" "" "" "" None users "" in
  let s' := broadcastUserList room s in
  roster room s = users
  ∧ heap s' = heap s ∧ clients s' = clients s ∧ roomUsers s' = roomUsers s
  ∧ wire s' = wire s ++ ((λ p, (cConn (deref s p), frame)) <$> live).
Proof.
  intros live users frame s'. subst s' frame.
  assert (roster room s = users) as Hroster.
  { rewrite roster_omap. subst users live. unfold rosterEntry.
    by rewrite list_fmap_omap. }
  split; [done|]. rewrite broadcastUserList_wire. simpl.
  repeat split. rewrite Hroster. subst live. unfold fanoutEntry.
  by rewrite list_fmap_omap.
Qed.

(** ** Relay *)




(** C6: an offer, answer or candidate message whose [to] is not registered
    leaves the whole state as it was: no frame is written to any connection
    (so none to the sender either), registry and membership table are
    untouched, and the loop goes on with the next frame. *)
Theorem relay_miss_inert c msg s :
  isRelay (mType msg) →
  clients s !! mTo msg = None →
  dispatch c msg s = s
  ∧ ∀ rest, serve c (Decoded msg :: rest) s = serve c rest s.
Proof.
  intros Ht Hto.
  assert (dispatch c msg s = s) as Hd.
  { rewrite dispatch_relay by done. unfold sendTo. by rewrite Hto. }
  split; [done|]. intros rest. simpl. by rewrite Hd.
Qed.

Lemma relay_miss_inert_witness :
  isRelay (mType (offerMsg "Z" "" "v=0"))
  ∧ clients twoInRoom !! mTo (offerMsg "Z" "" "v=0") = None
  ∧ dispatch 0 (offerMsg "Z" "" "v=0") twoInRoom = twoInRoom.
Proof.
  split; [by left|]. split; [vm_compute; reflexivity|].
  exact (proj1 (relay_miss_inert 0 (offerMsg "Z" "" "v=0") twoInRoom
                  (or_introl eq_refl) eq_refl)).
Defined.

(** ** Unknown types *)

(** C7: a decoded message whose type is none of join, leave, mic, offer,
    answer, candidate leaves the whole state as it was (registry,
    membership table, client objects, wire), and the read loop goes on with
    the next frame. *)
Theorem unknown_type_inert c msg s :
  ¬ isKnown (mType msg) →
  dispatch c msg s = s
  ∧ ∀ rest, serve c (Decoded msg :: rest) s = serve c rest s.
Proof.
  intros Hn. pose proof (dispatch_unknown c msg s Hn) as Hd.
  split; [done|]. intros rest. simpl. by rewrite Hd.
Qed.

Lemma unknown_type_inert_witness :
  ¬ isKnown (mType (mkMessage "ping" "r1" "B" "" "" "" "" (Some false) [] ""))
  ∧ dispatch 0 (mkMessage "ping" "r1" "B" "" "" "" "" (Some false) [] "") twoInRoom
    = twoInRoom.
Proof.
  assert (¬ isKnown (mType (mkMessage "ping" "r1" "B" "" "" "" "" (Some false) [] "")))
    as Hn by (by vm_compute; intros [|[|[|[|[|]]]]]).
  split; [exact Hn|].
  exact (proj1 (unknown_type_inert 0 _ twoInRoom Hn)).
Defined.

(** ** Switching rooms *)

(** C9: a client listed in room [A] that handles a join for another room is
    appended to that room's list and stays in [A]'s list, its room field
    now naming the new room; a later [removeClient] filters it out of the
    new room only, so it remains in [A]'s list while no longer registered. *)
Theorem room_switch_keeps_old_membership c msg s A :
  c < length (heap s) →
  mType msg = "join" →
  A ≠ mRoom msg →
  cID (deref s c) ∈ members A s →
  let id := cID (deref s c) in
  let s1 := dispatch c msg s in
  let s2 := removeClient c s1 in
  (id ∈ members A s1) ∧ (id ∈ members (mRoom msg) s1)
  ∧ cID (deref s1 c) = id ∧ cRoom (deref s1 c) = mRoom msg
  ∧ (id ∉ members (mRoom msg) s2) ∧ (id ∈ members A s2)
  ∧ members A s2 = members A s
  ∧ clients s2 !! id = None.
Proof.
  intros Hc Ht HA Hin id s1 s2.
  destruct (join_members c msg s Ht) as (HmB & Hother).
  assert (deref s1 c = mkClient id (cConn (deref s c)) (mRoom msg) (cMicOn (deref s c)))
    as Hderef.
  { subst s1. rewrite dispatch_join by done. rewrite broadcastUserList_deref.
    unfold deref. simpl. by rewrite list_lookup_total_insert_eq. }
  assert (members A s1 = members A s) as HA1 by (by apply Hother).
  assert (members A s2 = members A s1) as HA2.
  { subst s2. apply removeClient_members_other. by rewrite Hderef. }
  split; [by rewrite HA1|]. split.
  { subst s1. rewrite HmB. apply elem_of_app. right. by apply list_elem_of_singleton. }
  split; [by rewrite Hderef|]. split; [by rewrite Hderef|]. split.
  { subst s2. replace (mRoom msg) with (cRoom (deref s1 c)) by (by rewrite Hderef).
    rewrite removeClient_members_room, Hderef. simpl. apply not_elem_of_filter_ne. }
  split; [by rewrite HA2, HA1|]. split; [by rewrite HA2, HA1|].
  subst s2. rewrite removeClient_clients, Hderef. simpl. apply lookup_delete_eq.
Qed.

Lemma room_switch_keeps_old_membership_witness :
  0 < length (heap oneInRoom)
  ∧ mType (joinMsg "r2") = "join"
  ∧ "r1" ≠ mRoom (joinMsg "r2")
  ∧ cID (deref oneInRoom 0) ∈ members "r1" oneInRoom
  ∧ (cID (deref oneInRoom 0)
       ∈ members "r1" (removeClient 0 (dispatch 0 (joinMsg "r2") oneInRoom))).
Proof.
  assert (0 < length (heap oneInRoom)) as H1 by (vm_compute; lia).
  assert ("r1" ≠ mRoom (joinMsg "r2")) as H2 by done.
  assert (cID (deref oneInRoom 0) ∈ members "r1" oneInRoom) as H3
    by (vm_compute; apply list_elem_of_here).
  split; [exact H1|]. split; [reflexivity|]. split; [exact H2|]. split; [exact H3|].
  exact (proj1 (proj2 (proj2 (proj2 (proj2 (proj2
           (room_switch_keeps_old_membership 0 (joinMsg "r2") oneInRoom "r1"
              H1 eq_refl H2 H3))))))).
Defined.

(** ** Frame of removal *)

(** C10: [removeClient] changes at most the registry entry under the
    identifier of the client and the member list of the room named in its
    room field: every other registry entry, every other room's list, all
    client objects and the wire are as before. *)
Theorem removeClient_frame c s :
  (∀ id, id ≠ cID (deref s c) → clients (removeClient c s) !! id = clients s !! id)
  ∧ (∀ r, r ≠ cRoom (deref s c) → roomUsers (removeClient c s) !! r = roomUsers s !! r)
  ∧ heap (removeClient c s) = heap s
  ∧ wire (removeClient c s) = wire s.
Proof.
  split; [|split; [|split]].
  - intros id Hid. rewrite removeClient_clients. by apply lookup_delete_ne.
  - intros r Hr. by apply removeClient_roomUsers_other.
  - apply removeClient_heap.
  - apply removeClient_wire.
Qed.

(** * Further properties of the code *)

(** ** Client objects over a run *)

Lemma insert_same_Conn (h : list Client) (c p : loc) (cl : Client) :
  cConn cl = cConn (h !!! c) → cConn (<[c := cl]> h !!! p) = cConn (h !!! p).
Proof.
  intros Hconn. rewrite list_lookup_total_insert.
  case_decide as Hc; [|done]. destruct Hc as [<- _]. done.
Qed.

Lemma dispatch_ID_Conn c msg s p :
  cID (deref (dispatch c msg s) p) = cID (deref s p)
  ∧ cConn (deref (dispatch c msg s) p) = cConn (deref s p).
Proof.
  destruct (decide (isKnown (mType msg))) as [[Ht|[Ht|[Ht|Ht]]]|Hn].
  - rewrite dispatch_join by done. autorewrite with frame.
    unfold deref. simpl. split; [by apply insert_same_ID|by apply insert_same_Conn].
  - rewrite dispatch_leave by done. by autorewrite with frame.
  - rewrite dispatch_mic by done. destruct (mMicOn msg); [|done].
    autorewrite with frame.
    unfold deref. simpl. split; [by apply insert_same_ID|by apply insert_same_Conn].
  - rewrite dispatch_relay by done. unfold deref. by rewrite sendTo_heap.
  - by rewrite dispatch_unknown.
Qed.

Lemma stable_refl s : stable s s.
Proof. split; [lia|done]. Qed.

Lemma stable_trans s1 s2 s3 : stable s1 s2 → stable s2 s3 → stable s1 s3.
Proof.
  intros [Hl12 H12] [Hl23 H23]. split; [lia|].
  intros p Hp. destruct (H12 p Hp) as [<- <-]. apply H23. lia.
Qed.

Lemma accept_stable id conn s : stable s (snd (accept id conn s)).
Proof.
  unfold accept, stable, deref. simpl. rewrite length_app. simpl. split; [lia|].
  intros p Hp. by rewrite lookup_total_app_l.
Qed.

Lemma dispatch_stable c msg s : stable s (dispatch c msg s).
Proof.
  split; [by rewrite dispatch_heap_length|].
  intros p _. apply dispatch_ID_Conn.
Qed.

Lemma teardown_heap c s : heap (teardown c s) = heap s.
Proof. unfold teardown. by autorewrite with frame. Qed.

Lemma teardown_stable c s : stable s (teardown c s).
Proof. unfold stable, deref. rewrite teardown_heap. split; [lia|done]. Qed.

Lemma step_stable ev s s' : step ev s = Some s' → stable s s'.
Proof.
  destruct ev as [id conn|c msg|c]; simpl.
  - intros [= <-]. apply accept_stable.
  - case_decide; [|done]. intros [= <-]. apply dispatch_stable.
  - case_decide; [|done]. intros [= <-]. apply teardown_stable.
Qed.

(** A relation that holds along every step, and is reflexive and
    transitive, holds along every run. *)
Lemma run_rel (R : State → State → Prop) :
  (∀ s, R s s) →
  (∀ s1 s2 s3, R s1 s2 → R s2 s3 → R s1 s3) →
  (∀ ev s s', step ev s = Some s' → R s s') →
  ∀ evs s s', run evs s = Some s' → R s s'.
Proof.
  intros Hrefl Htrans Hstep evs.
  induction evs as [|ev evs IH]; intros s s'; simpl.
  - intros [= <-]. apply Hrefl.
  - destruct (step ev s) as [s1|] eqn:Hs; [|done].
    intros Hrun. eapply Htrans; [by eapply Hstep|by apply IH].
Qed.

(** A property of the initial state that every step keeps holds in every
    reachable state. *)
Lemma reachable_inv (P : State → Prop) :
  P initial →
  (∀ ev s s', P s → step ev s = Some s' → P s') →
  ∀ s, reachable s → P s.
Proof.
  intros Hinit Hstep s [evs Hrun]. revert Hrun Hinit.
  generalize initial. induction evs as [|ev evs IH]; intros s0; simpl.
  - by intros [= <-].
  - destruct (step ev s0) as [s1|] eqn:Hs; [|done].
    intros Hrun Hs0. eapply IH; [done|]. by eapply Hstep.
Qed.

(** X1: along any run no client object disappears, and no client object
    ever changes its identifier or its connection. *)
Theorem identity_fields_immutable evs s s' :
  run evs s = Some s' →
  (length (heap s) ≤ length (heap s'))%nat
  ∧ ∀ p, p < length (heap s) →
         cID (deref s' p) = cID (deref s p) ∧ cConn (deref s' p) = cConn (deref s p).
Proof.
  intros Hrun.
  apply (run_rel stable stable_refl stable_trans step_stable evs s s' Hrun).
Qed.

Lemma identity_fields_immutable_witness :
  run [EFrame 0 (joinMsg "r2"); EFrame 0 (micMsg (Some false)); EClosed 0] oneInRoom
  = Some (teardown 0 (dispatch 0 (micMsg (Some false))
                        (dispatch 0 (joinMsg "r2") oneInRoom)))
  ∧ cID (deref (teardown 0 (dispatch 0 (micMsg (Some false))
                              (dispatch 0 (joinMsg "r2") oneInRoom))) 0)
    = cID (deref oneInRoom 0).
Proof.
  assert (run [EFrame 0 (joinMsg "r2"); EFrame 0 (micMsg (Some false)); EClosed 0]
              oneInRoom
          = Some (teardown 0 (dispatch 0 (micMsg (Some false))
                                (dispatch 0 (joinMsg "r2") oneInRoom)))) as Hrun
    by (vm_compute; reflexivity).
  split; [exact Hrun|].
  refine (proj1 (proj2 (identity_fields_immutable _ _ _ Hrun) 0 _)).
  vm_compute. lia.
Defined.

(** ** The wire log over a run *)

Lemma fanout_frames users s l :
  Forall (λ f, f.2 = userListMessage users) (omap (fanoutEntry s users) l).
Proof.
  apply Forall_forall. intros f Hf.
  apply list_elem_of_omap in Hf as (id & _ & Hf). unfold fanoutEntry in Hf.
  destruct (clients s !! id); [|done]. simpl in Hf. by injection Hf as <-.
Qed.

Lemma broadcastUserList_frames room s :
  ∃ new, wire (broadcastUserList room s) = wire s ++ new
         ∧ Forall (λ f, mType f.2 = "user_list") new.
Proof.
  rewrite broadcastUserList_wire. simpl. eexists. split; [done|].
  eapply Forall_impl; [apply fanout_frames|]. by intros f ->.
Qed.

Lemma run_app evs1 evs2 s :
  run (evs1 ++ evs2) s = run evs1 s ≫= run evs2.
Proof.
  revert s. induction evs1 as [|ev evs1 IH]; intros s; simpl; [done|].
  destruct (step ev s) as [s1|]; [apply IH|done].
Qed.

Lemma origin_mono evs evs' s s' f :
  evs ⊆ evs' → stable s s' → origin evs s f → origin evs' s' f.
Proof.
  intros Hsub [Hlen Hst] [(id & Hin & Hf)|[Hul|Hrel]].
  - left. exists id. split; [by apply Hsub|done].
  - by right; left.
  - destruct Hrel as (c & t & msg & Hin & Hty & Hc & Ht & Hto & Hconn & Hf).
    right; right. exists c, t, msg.
    destruct (Hst c Hc) as [HcID _]. destruct (Hst t Ht) as [HtID HtConn].
    rewrite HcID, HtID, HtConn.
    repeat split; try done; try lia. by apply Hsub.
Qed.

Lemma broadcastUserList_origin evs room s s0 :
  ∃ new, wire (broadcastUserList room s) = wire s ++ new
         ∧ Forall (origin evs s0) new.
Proof.
  rewrite broadcastUserList_wire. simpl. eexists. split; [done|].
  eapply Forall_impl; [apply fanout_frames|].
  intros f Hf. right; left. eexists. exact Hf.
Qed.

(** What one event writes. *)
Lemma step_origin evs ev s s' :
  wf s → step ev s = Some s' →
  ∃ new, wire s' = wire s ++ new ∧ Forall (origin (evs ++ [ev]) s') new.
Proof.
  intros Hwf Hstep.
  destruct ev as [id conn|c msg|c]; simpl in Hstep.
  - injection Hstep as <-. eexists. split; [done|].
    apply Forall_singleton. left. exists id. split; [|done].
    simpl. set_solver.
  - case_decide as Hc; [|done]. injection Hstep as <-.
    destruct (decide (isKnown (mType msg))) as [[Ht|[Ht|[Ht|Ht]]]|Hn].
    + rewrite dispatch_join by done.
      match goal with
      | |- context [broadcastUserList ?r ?st] =>
          destruct (broadcastUserList_origin (evs ++ [EFrame c msg]) r st
                      (broadcastUserList r st)) as (new & Hw & Hnew)
      end.
      exists new. split; [done|]. done.
    + rewrite dispatch_leave by done.
      match goal with
      | |- context [broadcastUserList ?r ?st] =>
          destruct (broadcastUserList_origin (evs ++ [EFrame c msg]) r st
                      (broadcastUserList r st)) as (new & Hw & Hnew)
      end.
      exists new. rewrite removeClient_wire in Hw. split; [done|]. done.
    + rewrite dispatch_mic by done. destruct (mMicOn msg) as [on|].
      * match goal with
        | |- context [broadcastUserList ?r ?st] =>
            destruct (broadcastUserList_origin (evs ++ [EFrame c msg]) r st
                        (broadcastUserList r st)) as (new & Hw & Hnew)
        end.
        exists new. split; [done|]. done.
      * exists []. by rewrite app_nil_r.
    + rewrite dispatch_relay by done. unfold sendTo.
      destruct (clients s !! mTo msg) as [t|] eqn:Hto.
      * destruct (Hwf _ _ Hto) as [Ht' HtID].
        eexists. split; [done|]. apply Forall_singleton.
        right; right. exists c, t, msg.
        repeat split; try done. set_solver.
      * exists []. by rewrite app_nil_r.
    + rewrite dispatch_unknown by done. exists []. by rewrite app_nil_r.
  - case_decide as Hc; [|done]. injection Hstep as <-.
    unfold teardown.
    match goal with
    | |- context [broadcastUserList ?r ?st] =>
        destruct (broadcastUserList_origin (evs ++ [EClosed c]) r st
                    (broadcastUserList r st)) as (new & Hw & Hnew)
    end.
    exists new. rewrite removeClient_wire in Hw. split; [done|]. done.
Qed.

(** X3: after any run from the initial state, each frame on the wire is
    the identifier message of an accepted connection, written to that
    connection; or a roster; or an offer, answer or candidate that the
    handler of some client read, written to the connection of the client
    whose identifier is the [to] of that message, with the type, room, to,
    micOn, users and id of that message, the payloads compacted, and [from]
    the identifier of the client of the handler that read it, whatever
    [from] the message came with. *)
Theorem relayed_frames_carry_sender evs s :
  run evs initial = Some s → Forall (origin evs s) (wire s).
Proof.
  revert s. induction evs as [|ev evs IH] using rev_ind; intros s Hrun.
  - injection Hrun as <-. apply Forall_nil_2.
  - rewrite run_app in Hrun.
    destruct (run evs initial) as [s0|] eqn:Hrun0; [|done]. simpl in Hrun.
    destruct (step ev s0) as [s1|] eqn:Hstep; [|done]. injection Hrun as ->.
    assert (wf s0) as Hwf by (apply reachable_wf; by exists evs).
    destruct (step_origin evs ev s0 s Hwf Hstep) as (new & -> & Hnew).
    apply Forall_app. split; [|done].
    eapply Forall_impl; [by apply IH|]. intros f.
    apply origin_mono; [set_solver|by eapply step_stable].
Qed.

Lemma relayed_frames_carry_sender_witness :
  run [EAccept "A" 10; EFrame 0 (joinMsg "r1"); EAccept "B" 11;
       EFrame 1 (joinMsg "r1"); EFrame 0 (offerMsg "B" "forged" "v=0")] initial
  = Some afterForgedOffer
  ∧ last (wire afterForgedOffer) = Some (11, offerMsg "B" "A" "v=0")
  ∧ Forall (origin [EAccept "A" 10; EFrame 0 (joinMsg "r1"); EAccept "B" 11;
                    EFrame 1 (joinMsg "r1"); EFrame 0 (offerMsg "B" "forged" "v=0")]
                   afterForgedOffer)
           (wire afterForgedOffer).
Proof.
  assert (run [EAccept "A" 10; EFrame 0 (joinMsg "r1"); EAccept "B" 11;
               EFrame 1 (joinMsg "r1"); EFrame 0 (offerMsg "B" "forged" "v=0")] initial
          = Some afterForgedOffer) as Hrun by (vm_compute; reflexivity).
  split; [exact Hrun|]. split; [vm_compute; reflexivity|].
  exact (relayed_frames_carry_sender _ _ Hrun).
Defined.

(** ** The registry and the membership table over a run *)

(** X4: in every reachable state a registered identifier resolves to an
    allocated client object whose identifier is the key it is stored
    under. *)
Theorem registry_entries_valid s id c :
  reachable s →
  clients s !! id = Some c →
  c < length (heap s) ∧ cID (deref s c) = id.
Proof. intros Hr Hc. by apply (reachable_wf s Hr). Qed.

Lemma registry_entries_valid_witness :
  reachable afterForgedOffer
  ∧ clients afterForgedOffer !! "B" = Some 1
  ∧ cID (deref afterForgedOffer 1) = "B".
Proof.
  assert (reachable afterForgedOffer) as Hr.
  { exists [EAccept "A" 10; EFrame 0 (joinMsg "r1"); EAccept "B" 11;
            EFrame 1 (joinMsg "r1"); EFrame 0 (offerMsg "B" "forged" "v=0")].
    vm_compute. reflexivity. }
  assert (clients afterForgedOffer !! "B" = Some 1) as Hc by (vm_compute; reflexivity).
  split; [exact Hr|]. split; [exact Hc|].
  exact (proj2 (registry_entries_valid afterForgedOffer "B" 1 Hr Hc)).
Defined.

Lemma removeClient_members_subseteq c s r id :
  id ∈ members r (removeClient c s) → id ∈ members r s.
Proof.
  destruct (decide (r = cRoom (deref s c))) as [->|Hr].
  - rewrite removeClient_members_room. rewrite list_elem_of_filter. by intros [_ ?].
  - by rewrite removeClient_members_other.
Qed.

(** Only the join case adds to a member list, and only the identifier of
    the handler's client. *)
Lemma dispatch_members c msg s r id :
  id ∈ members r (dispatch c msg s) → id ∈ members r s ∨ id = cID (deref s c).
Proof.
  destruct (decide (isKnown (mType msg))) as [[Ht|[Ht|[Ht|Ht]]]|Hn].
  - destruct (join_members c msg s Ht) as (Hm & Hother).
    destruct (decide (r = mRoom msg)) as [->|Hr].
    + rewrite Hm, elem_of_app, list_elem_of_singleton. tauto.
    + rewrite Hother by done. tauto.
  - rewrite dispatch_leave by done. autorewrite with frame.
    intros Hin. left. by eapply removeClient_members_subseteq.
  - rewrite dispatch_mic by done. destruct (mMicOn msg); [|tauto].
    autorewrite with frame. unfold members. simpl. tauto.
  - rewrite dispatch_relay by done. unfold sendTo, members.
    destruct (clients s !! mTo msg); simpl; tauto.
  - rewrite dispatch_unknown by done. tauto.
Qed.

Lemma listedIssued_stable s s' :
  stable s s' →
  (∀ r id, id ∈ members r s' →
           id ∈ members r s ∨ ∃ p, p < length (heap s') ∧ cID (deref s' p) = id) →
  listedIssued s → listedIssued s'.
Proof.
  intros [Hlen Hst] Hsub Hli r id Hin.
  destruct (Hsub r id Hin) as [Hold|Hnew]; [|done].
  destruct (Hli r id Hold) as (p & Hp & Hid).
  exists p. split; [lia|]. by destruct (Hst p Hp) as [-> _].
Qed.

Lemma step_listedIssued ev s s' :
  listedIssued s → step ev s = Some s' → listedIssued s'.
Proof.
  intros Hli Hstep. pose proof (step_stable ev s s' Hstep) as Hst.
  revert Hli. apply listedIssued_stable; [done|].
  destruct ev as [id0 conn|c msg|c]; simpl in Hstep.
  - injection Hstep as <-. intros r id. unfold members. simpl. tauto.
  - case_decide as Hc; [|done]. injection Hstep as <-.
    intros r id Hin. destruct (dispatch_members c msg s r id Hin) as [? | ->]; [by left|].
    right. exists c. destruct Hst as [Hlen Hst]. split; [lia|].
    by destruct (Hst c Hc) as [-> _].
  - case_decide as Hc; [|done]. injection Hstep as <-.
    intros r id. unfold teardown. autorewrite with frame.
    intros Hin. left. by eapply removeClient_members_subseteq.
Qed.

(** X5: in every reachable state every identifier in a room's member list
    is the identifier of a client object the server allocated: nothing is
    listed that was not issued by the server. *)
Theorem listed_ids_were_issued s room id :
  reachable s →
  id ∈ members room s →
  ∃ p, p < length (heap s) ∧ cID (deref s p) = id.
Proof.
  intros Hr. revert room id.
  apply (reachable_inv listedIssued); [|apply step_listedIssued|done].
  intros room id. unfold members, initial. simpl. rewrite lookup_empty. simpl.
  by intros ?%elem_of_nil.
Qed.

Lemma listed_ids_were_issued_witness :
  reachable afterSwitchAndClose
  ∧ "A" ∈ members "r1" afterSwitchAndClose
  ∧ ∃ p, p < length (heap afterSwitchAndClose) ∧ cID (deref afterSwitchAndClose p) = "A".
Proof.
  assert ("A" ∈ members "r1" afterSwitchAndClose) as Hin
    by (vm_compute; apply list_elem_of_here).
  split; [exact afterSwitchAndClose_reachable|]. split; [exact Hin|].
  exact (listed_ids_were_issued afterSwitchAndClose "r1" "A"
           afterSwitchAndClose_reachable Hin).
Defined.

Lemma removeClient_dom c s : dom (roomUsers (removeClient c s)) = dom (roomUsers s).
Proof.
  rewrite removeClient_roomUsers.
  destruct (roomUsers s !! cRoom (deref s c)) as [users|] eqn:Hr; [|done].
  apply dom_insert_lookup_L. by rewrite Hr.
Qed.

Lemma dispatch_dom c msg s : dom (roomUsers s) ⊆ dom (roomUsers (dispatch c msg s)).
Proof.
  destruct (decide (isKnown (mType msg))) as [[Ht|[Ht|[Ht|Ht]]]|Hn].
  - rewrite dispatch_join by done. autorewrite with frame. simpl.
    rewrite dom_insert_L. set_solver.
  - rewrite dispatch_leave by done. autorewrite with frame.
    by rewrite removeClient_dom.
  - rewrite dispatch_mic by done. destruct (mMicOn msg); [|done].
    by autorewrite with frame.
  - rewrite dispatch_relay by done. unfold sendTo.
    by destruct (clients s !! mTo msg).
  - by rewrite dispatch_unknown.
Qed.

Lemma step_dom ev s s' :
  step ev s = Some s' → dom (roomUsers s) ⊆ dom (roomUsers s').
Proof.
  destruct ev as [id conn|c msg|c]; simpl.
  - by intros [= <-].
  - case_decide; [|done]. intros [= <-]. apply dispatch_dom.
  - case_decide; [|done]. intros [= <-]. unfold teardown.
    autorewrite with frame. by rewrite removeClient_dom.
Qed.

(** X6: a room, once it has an entry in the membership table, keeps one
    along every run: no event deletes a key of [roomUsers], not even the
    departure of its last member. *)
Theorem rooms_never_deleted evs s s' room :
  run evs s = Some s' →
  is_Some (roomUsers s !! room) → is_Some (roomUsers s' !! room).
Proof.
  intros Hrun. rewrite <- !elem_of_dom.
  assert (dom (roomUsers s) ⊆ dom (roomUsers s')) as Hsub; [|set_solver].
  apply (run_rel (λ a b, dom (roomUsers a) ⊆ dom (roomUsers b))) with (evs := evs);
    [done| |apply step_dom|done].
  intros s1 s2 s3 H12 H23. set_solver.
Qed.

Lemma rooms_never_deleted_witness :
  run [EClosed 0] oneInRoom = Some (teardown 0 oneInRoom)
  ∧ is_Some (roomUsers oneInRoom !! "r1")
  ∧ members "r1" (teardown 0 oneInRoom) = []
  ∧ is_Some (roomUsers (teardown 0 oneInRoom) !! "r1").
Proof.
  assert (run [EClosed 0] oneInRoom = Some (teardown 0 oneInRoom)) as Hrun
    by (vm_compute; reflexivity).
  assert (is_Some (roomUsers oneInRoom !! "r1")) as Hsome by (vm_compute; eauto).
  split; [exact Hrun|]. split; [exact Hsome|]. split; [vm_compute; reflexivity|].
  exact (rooms_never_deleted _ _ _ "r1" Hrun Hsome).
Defined.

(** X7: [removeClient] neither creates nor deletes a room: the membership
    table has the same keys afterwards.  A room that had no entry gets
    none, and the room of the client keeps its entry, with the other
    members in their old order, even when the list becomes empty. *)
Theorem removeClient_keeps_room_keys c s :
  dom (roomUsers (removeClient c s)) = dom (roomUsers s)
  ∧ (roomUsers s !! cRoom (deref s c) = None → roomUsers (removeClient c s) = roomUsers s)
  ∧ (∀ users, roomUsers s !! cRoom (deref s c) = Some users →
       roomUsers (removeClient c s) !! cRoom (deref s c)
       = Some (filter (λ i, i ≠ cID (deref s c)) users)).
Proof.
  split; [apply removeClient_dom|]. split.
  - intros Hr. by rewrite removeClient_roomUsers, Hr.
  - intros users Hr. rewrite removeClient_roomUsers, Hr. apply lookup_insert_eq.
Qed.

(** ** Accepting a connection *)

Lemma accept_fields id conn s :
  fst (accept id conn s) = length (heap s)
  ∧ clients (snd (accept id conn s)) = <[id := length (heap s)]> (clients s)
  ∧ deref (snd (accept id conn s)) (fst (accept id conn s)) = mkClient id conn "" true
  ∧ roomUsers (snd (accept id conn s)) = roomUsers s
  ∧ heap (snd (accept id conn s)) = heap s ++ [mkClient id conn "" true]
  ∧ wire (snd (accept id conn s)) = wire s ++ [(conn, idMessage id)].
Proof.
  unfold accept, deref. simpl. repeat split; try done.
  by rewrite list_lookup_total_middle.
Qed.

(** X8: after the head of [handleWebSocket] the new identifier resolves to
    a fresh client object with that identifier and connection, in no room
    and with the microphone on; every other registry entry, every
    existing client object and the membership table are as before; and
    the one frame written is the identifier message, to the new
    connection.  This holds also when the identifier was already
    registered: the entry is then overwritten. *)
Theorem accept_registers id conn s :
  let c := fst (accept id conn s) in
  let s' := snd (accept id conn s) in
  c = length (heap s)
  ∧ clients s' !! id = Some c
  ∧ deref s' c = mkClient id conn "" true
  ∧ (∀ id', id' ≠ id → clients s' !! id' = clients s !! id')
  ∧ (∀ p, p < length (heap s) → deref s' p = deref s p)
  ∧ roomUsers s' = roomUsers s
  ∧ wire s' = wire s ++ [(conn, idMessage id)].
Proof.
  unfold accept, deref. simpl.
  split; [done|]. split; [apply lookup_insert_eq|].
  split; [by rewrite list_lookup_total_middle|].
  split; [by intros id' Hne; rewrite lookup_insert_ne|].
  split; [|done]. intros p Hp. by rewrite lookup_total_app_l.
Qed.

(** ** The microphone flag *)

(** X9: a mic message that carries a flag sets the microphone flag of the
    handler's client and nothing else in any client object, leaves the
    registry and the membership table alone, and the frames it writes are
    those of a broadcast for the room in the client's room field, computed
    after the flag was set. *)
Theorem mic_sets_flag (c : loc) msg s on :
  c < length (heap s) →
  mType msg = "mic" →
  mMicOn msg = Some on →
  let s' := dispatch c msg s in
  let flagged := mkState (<[c := mkClient (cID (deref s c)) (cConn (deref s c))
                                          (cRoom (deref s c)) on]> (heap s))
                         (clients s) (roomUsers s) (wire s) in
  deref s' c = mkClient (cID (deref s c)) (cConn (deref s c)) (cRoom (deref s c)) on
  ∧ (∀ p, p ≠ c → deref s' p = deref s p)
  ∧ clients s' = clients s
  ∧ roomUsers s' = roomUsers s
  ∧ s' = broadcastUserList (cRoom (deref s c)) flagged.
Proof.
  intros Hc Ht Hon s' flagged. subst s'. rewrite dispatch_mic by done. rewrite Hon.
  assert (<[c := mkClient (cID (deref s c)) (cConn (deref s c)) (cRoom (deref s c)) on]>
            (heap s) !!! c
          = mkClient (cID (deref s c)) (cConn (deref s c)) (cRoom (deref s c)) on) as Hd
    by (by apply list_lookup_total_insert_eq).
  rewrite Hd. simpl. autorewrite with frame.
  split; [exact Hd|]. split; [|done].
  intros p Hp. autorewrite with frame. unfold deref. simpl.
  by apply list_lookup_total_insert_ne.
Qed.

Lemma mic_sets_flag_witness :
  0 < length (heap twoInRoom)
  ∧ mType (micMsg (Some false)) = "mic"
  ∧ mMicOn (micMsg (Some false)) = Some false
  ∧ deref (dispatch 0 (micMsg (Some false)) twoInRoom) 0
    = mkClient (cID (deref twoInRoom 0)) (cConn (deref twoInRoom 0))
               (cRoom (deref twoInRoom 0)) false.
Proof.
  assert (0 < length (heap twoInRoom)) as Hc by (vm_compute; lia).
  split; [exact Hc|]. split; [reflexivity|]. split; [reflexivity|].
  exact (proj1 (mic_sets_flag 0 (micMsg (Some false)) twoInRoom false
                  Hc eq_refl eq_refl)).
Defined.

(** X10: a mic message without the flag changes nothing and writes
    nothing: no roster is broadcast, and the loop goes on. *)
Theorem mic_without_flag_inert c msg s :
  mType msg = "mic" →
  mMicOn msg = None →
  dispatch c msg s = s
  ∧ ∀ rest, serve c (Decoded msg :: rest) s = serve c rest s.
Proof.
  intros Ht Hon.
  assert (dispatch c msg s = s) as Hd by (by rewrite dispatch_mic, Hon).
  split; [done|]. intros rest. simpl. by rewrite Hd.
Qed.

Lemma mic_without_flag_inert_witness :
  mType (micMsg None) = "mic"
  ∧ mMicOn (micMsg None) = None
  ∧ dispatch 0 (micMsg None) twoInRoom = twoInRoom.
Proof.
  split; [reflexivity|]. split; [reflexivity|].
  exact (proj1 (mic_without_flag_inert 0 (micMsg None) twoInRoom eq_refl eq_refl)).
Defined.

(** ** Broadcast: edge cases and counts *)

Lemma omap_all_None {A B} (f : A → option B) (l : list A) :
  Forall (λ x, f x = None) l → omap f l = [].
Proof.
  induction 1 as [|x l Hx _ IH]; [done|]. by rewrite omap_cons, Hx.
Qed.

(** X11: a broadcast for a room none of whose listed identifiers is
    registered (in particular a room that has no entry, or an empty one)
    writes nothing and changes nothing. *)
Theorem broadcast_without_recipient_inert room s :
  Forall (λ id, clients s !! id = None) (members room s) →
  broadcastUserList room s = s.
Proof.
  intros Hnone. rewrite broadcastUserList_wire.
  rewrite omap_all_None.
  - destruct s. unfold set_wire. simpl. by rewrite app_nil_r.
  - eapply Forall_impl; [done|]. intros id Hid. unfold fanoutEntry. by rewrite Hid.
Qed.

Lemma broadcast_without_recipient_inert_witness :
  Forall (λ id, clients twoInRoom !! id = None) (members "nowhere" twoInRoom)
  ∧ broadcastUserList "nowhere" twoInRoom = twoInRoom.
Proof.
  assert (Forall (λ id, clients twoInRoom !! id = None) (members "nowhere" twoInRoom))
    as Hnone by (vm_compute; apply Forall_nil_2).
  split; [exact Hnone|].
  exact (broadcast_without_recipient_inert "nowhere" twoInRoom Hnone).
Defined.

Lemma fanout_roster_length s users (l : list string) :
  length (omap (fanoutEntry s users) l) = length (omap (rosterEntry s) l).
Proof.
  induction l as [|id l IH]; [done|].
  rewrite !omap_cons. unfold fanoutEntry at 1, rosterEntry at 1.
  destruct (clients s !! id); simpl; by rewrite IH.
Qed.

(** X12: a broadcast writes exactly as many frames as its roster has
    entries: one frame per entry, none for a listed identifier that is not
    registered. *)
Theorem broadcast_one_frame_per_entry room s :
  length (wire (broadcastUserList room s))
  = length (wire s) + length (roster room s).
Proof.
  rewrite broadcastUserList_wire. simpl.
  by rewrite length_app, fanout_roster_length, roster_omap.
Qed.

(** ** Leaving through the code after the loop *)

Lemma roster_only_registered_wf s room u :
  wf s → u ∈ roster room s → is_Some (clients s !! uID u).
Proof.
  intros Hwf Hu.
  assert (uID u ∈ uID <$> roster room s) as Hin by (by apply list_elem_of_fmap_2).
  rewrite roster_omap, roster_IDs_filter in Hin by done.
  by apply list_elem_of_filter in Hin as [? _].
Qed.

(** X13: when a connection closes, its identifier is unregistered, and
    every frame the code after the loop writes is a roster message that
    does not list the departed identifier. *)
Theorem teardown_roster_excludes_departed c s :
  reachable s →
  clients (teardown c s) !! cID (deref s c) = None
  ∧ ∃ new, wire (teardown c s) = wire s ++ new
           ∧ Forall (λ f, mType f.2 = "user_list"
                          ∧ cID (deref s c) ∉ uID <$> mUsers f.2) new.
Proof.
  intros Hr. pose proof (wf_removeClient c s (reachable_wf s Hr)) as Hwf.
  unfold teardown. autorewrite with frame.
  split; [apply lookup_delete_eq|].
  rewrite broadcastUserList_wire. simpl. rewrite removeClient_wire.
  eexists. split; [done|].
  eapply Forall_impl; [apply fanout_frames|].
  intros f ->. split; [done|]. simpl.
  intros (u & Hid & Hu)%list_elem_of_fmap.
  apply (roster_only_registered_wf _ _ _ Hwf) in Hu as [p Hp].
  rewrite <- Hid, removeClient_clients, lookup_delete_eq in Hp. done.
Qed.

Lemma teardown_roster_excludes_departed_witness :
  reachable twoInRoom
  ∧ clients (teardown 1 twoInRoom) !! cID (deref twoInRoom 1) = None.
Proof.
  assert (reachable twoInRoom) as Hr.
  { exists [EAccept "A" 10; EFrame 0 (joinMsg "r1");
            EAccept "B" 11; EFrame 1 (joinMsg "r1")].
    vm_compute. reflexivity. }
  split; [exact Hr|].
  exact (proj1 (teardown_roster_excludes_departed 1 twoInRoom Hr)).
Defined.

(** ** The read loop *)

Lemma serve_decoded c frames s :
  serve c frames s
  = teardown c (foldl (fun st msg => dispatch c msg st) s (decoded frames)).
Proof.
  revert s. induction frames as [|[|msg] frames IH]; intros s; simpl.
  - done.
  - apply IH.
  - apply IH.
Qed.

(** X14: what a handler does depends only on the frames that decode, in
    their order: a frame that fails to decode changes nothing and does not
    end the loop, wherever it comes in the input; two inputs with the same
    decoded messages leave the same state. *)
Theorem serve_skips_malformed c frames frames' s :
  decoded frames = decoded frames' →
  serve c frames s = serve c frames' s.
Proof. intros Hd. by rewrite !serve_decoded, Hd. Qed.

Lemma serve_skips_malformed_witness :
  decoded [Malformed; Decoded (joinMsg "r2"); Malformed] = decoded [Decoded (joinMsg "r2")]
  ∧ serve 0 [Malformed; Decoded (joinMsg "r2"); Malformed] oneInRoom
    = serve 0 [Decoded (joinMsg "r2")] oneInRoom.
Proof.
  split; [reflexivity|].
  exact (serve_skips_malformed 0 [Malformed; Decoded (joinMsg "r2"); Malformed]
           [Decoded (joinMsg "r2")] oneInRoom eq_refl).
Defined.

(** X15: a connection that is accepted under an identifier that is neither
    registered nor listed in the room named by the empty string, and then
    closes without one decoded frame, leaves the registry and the
    membership table exactly as they were; its client object stays
    allocated, and what it wrote is the identifier message followed by
    roster messages only. *)
Theorem connect_disconnect_roundtrip id conn frames s :
  clients s !! id = None →
  id ∉ members "" s →
  decoded frames = [] →
  let s' := handleWebSocket id conn frames s in
  clients s' = clients s
  ∧ roomUsers s' = roomUsers s
  ∧ heap s' = heap s ++ [mkClient id conn "" true]
  ∧ ∃ rest, wire s' = wire s ++ (conn, idMessage id) :: rest
            ∧ Forall (λ f, mType f.2 = "user_list") rest.
Proof.
  intros Hfresh Hlisted Hdec s'. subst s'.
  unfold handleWebSocket. destruct (accept id conn s) as [c s1] eqn:Hacc.
  rewrite serve_decoded, Hdec. simpl.
  destruct (accept_fields id conn s) as (Hc & Hcl & Hd & Hru & Hh & Hw).
  rewrite Hacc in Hc, Hcl, Hd, Hru, Hh, Hw. simpl in *.
  unfold teardown. autorewrite with frame. rewrite Hd. simpl.
  split; [|split; [|split; [done|]]].
  - rewrite Hcl, delete_insert_eq. by apply delete_id.
  - rewrite removeClient_roomUsers, Hd. simpl. rewrite Hru.
    unfold members in Hlisted.
    destruct (roomUsers s !! "") as [users|] eqn:Hr; [|done].
    simpl in Hlisted. rewrite filter_ne_id by done. by apply insert_id.
  - match goal with
    | |- context [broadcastUserList ?r ?st] =>
        destruct (broadcastUserList_frames r st) as (rest & Hwr & Hrest)
    end.
    exists rest. rewrite Hwr, removeClient_wire, Hw, <- app_assoc. done.
Qed.

Lemma connect_disconnect_roundtrip_witness :
  clients twoInRoom !! "C" = None
  ∧ ("C" ∉ members "" twoInRoom)
  ∧ decoded [Malformed; Malformed] = []
  ∧ clients (handleWebSocket "C" 12 [Malformed; Malformed] twoInRoom)
    = clients twoInRoom.
Proof.
  assert ("C" ∉ members "" twoInRoom) as Hl by (vm_compute; apply not_elem_of_nil).
  split; [reflexivity|]. split; [exact Hl|]. split; [reflexivity|].
  exact (proj1 (connect_disconnect_roundtrip "C" 12 [Malformed; Malformed] twoInRoom
                  eq_refl Hl eq_refl)).
Defined.

(** ** Join followed by leave *)

(** X16: for a client that is not listed in a room, joining that room and
    then leaving returns every room's member list to what it was; the
    identifier, however, is no longer registered after the leave. *)
Theorem join_leave_roundtrip (c : loc) jmsg lmsg s :
  c < length (heap s) →
  mType jmsg = "join" →
  mType lmsg = "leave" →
  cID (deref s c) ∉ members (mRoom jmsg) s →
  let s' := dispatch c lmsg (dispatch c jmsg s) in
  (∀ r, members r s' = members r s)
  ∧ clients s' = delete (cID (deref s c)) (clients s).
Proof.
  intros Hc Hj Hl Hnew s'. subst s'.
  destruct (join_members c jmsg s Hj) as (Hm & Hother).
  assert (deref (dispatch c jmsg s) c
          = mkClient (cID (deref s c)) (cConn (deref s c)) (mRoom jmsg)
                     (cMicOn (deref s c))) as Hd.
  { rewrite dispatch_join by done. autorewrite with frame.
    unfold deref. simpl. by rewrite list_lookup_total_insert_eq. }
  assert (clients (dispatch c jmsg s) = clients s) as Hcl.
  { rewrite dispatch_join by done. by autorewrite with frame. }
  rewrite (dispatch_leave c lmsg) by done. autorewrite with frame.
  rewrite Hd, Hcl. simpl. split; [|done].
  intros r. rewrite broadcastUserList_members.
  destruct (decide (r = mRoom jmsg)) as [->|Hr].
  - pose proof (removeClient_members_room c (dispatch c jmsg s)) as Hrm.
    rewrite Hd in Hrm. simpl in Hrm. rewrite Hrm.
    rewrite Hm, filter_app, filter_ne_id by done.
    rewrite filter_cons_False by (by intros ?). by rewrite app_nil_r.
  - rewrite removeClient_members_other by (by rewrite Hd). by apply Hother.
Qed.

Lemma join_leave_roundtrip_witness :
  0 < length (heap oneInRoom)
  ∧ mType (joinMsg "r2") = "join"
  ∧ mType (leaveMsg "r2") = "leave"
  ∧ (cID (deref oneInRoom 0) ∉ members (mRoom (joinMsg "r2")) oneInRoom)
  ∧ clients (dispatch 0 (leaveMsg "r2") (dispatch 0 (joinMsg "r2") oneInRoom))
    = delete (cID (deref oneInRoom 0)) (clients oneInRoom).
Proof.
  assert (0 < length (heap oneInRoom)) as Hc by (vm_compute; lia).
  assert (cID (deref oneInRoom 0) ∉ members (mRoom (joinMsg "r2")) oneInRoom) as Hn
    by (vm_compute; apply not_elem_of_nil).
  split; [exact Hc|]. split; [reflexivity|]. split; [reflexivity|]. split; [exact Hn|].
  exact (proj2 (join_leave_roundtrip 0 (joinMsg "r2") (leaveMsg "r2") oneInRoom
                  Hc eq_refl eq_refl Hn)).
Defined.

(** ** Only an accept registers *)

Lemma dispatch_clients_subseteq c msg s : clients (dispatch c msg s) ⊆ clients s.
Proof.
  destruct (decide (isKnown (mType msg))) as [[Ht|[Ht|[Ht|Ht]]]|Hn].
  - rewrite dispatch_join by done. by autorewrite with frame.
  - rewrite dispatch_leave by done. autorewrite with frame. apply delete_subseteq.
  - rewrite dispatch_mic by done. destruct (mMicOn msg); [|done].
    by autorewrite with frame.
  - rewrite dispatch_relay by done. unfold sendTo.
    by destruct (clients s !! mTo msg).
  - by rewrite dispatch_unknown.
Qed.

Lemma lookup_None_weaken (m1 m2 : gmap string loc) id :
  m1 ⊆ m2 → m2 !! id = None → m1 !! id = None.
Proof.
  intros Hsub Hnone. destruct (m1 !! id) as [p|] eqn:Hp; [|done].
  by rewrite (lookup_weaken _ _ _ _ Hp Hsub) in Hnone.
Qed.

Lemma step_keeps_unregistered ev s s' id :
  step ev s = Some s' →
  (∀ conn, ev ≠ EAccept id conn) →
  clients s !! id = None → clients s' !! id = None.
Proof.
  intros Hstep Hev Hnone. destruct ev as [id0 conn|c msg|c]; simpl in Hstep.
  - injection Hstep as <-. unfold accept. simpl.
    rewrite lookup_insert_ne; [done|]. intros ->. by apply (Hev conn).
  - case_decide; [|done]. injection Hstep as <-.
    eapply lookup_None_weaken; [apply dispatch_clients_subseteq|done].
  - case_decide; [|done]. injection Hstep as <-. unfold teardown.
    autorewrite with frame.
    eapply lookup_None_weaken; [apply delete_subseteq|done].
Qed.

(** X17: an identifier that is not registered stays unregistered along
    every run in which no connection is accepted under it: no message of
    any handler, and no close, ever adds a registry entry.  In particular
    a client that has handled a leave is not registered again by a later
    join. *)
Theorem only_accept_registers evs s s' id :
  run evs s = Some s' →
  Forall (λ ev, ∀ conn, ev ≠ EAccept id conn) evs →
  clients s !! id = None →
  clients s' !! id = None.
Proof.
  revert s. induction evs as [|ev evs IH]; intros s; simpl.
  - by intros [= <-].
  - destruct (step ev s) as [s1|] eqn:Hs; [|done].
    intros Hrun [Hev Hevs]%Forall_cons Hnone.
    apply (IH s1); [done|done|]. by eapply step_keeps_unregistered.
Qed.

Lemma only_accept_registers_witness :
  run [EFrame 0 (joinMsg "r1")] (dispatch 0 (leaveMsg "r1") oneInRoom)
  = Some (dispatch 0 (joinMsg "r1") (dispatch 0 (leaveMsg "r1") oneInRoom))
  ∧ clients (dispatch 0 (leaveMsg "r1") oneInRoom) !! "A" = None
  ∧ members "r1" (dispatch 0 (joinMsg "r1") (dispatch 0 (leaveMsg "r1") oneInRoom))
    = ["A"]
  ∧ clients (dispatch 0 (joinMsg "r1") (dispatch 0 (leaveMsg "r1") oneInRoom)) !! "A"
    = None.
Proof.
  assert (run [EFrame 0 (joinMsg "r1")] (dispatch 0 (leaveMsg "r1") oneInRoom)
          = Some (dispatch 0 (joinMsg "r1") (dispatch 0 (leaveMsg "r1") oneInRoom)))
    as Hrun by (vm_compute; reflexivity).
  assert (clients (dispatch 0 (leaveMsg "r1") oneInRoom) !! "A" = None) as Hnone
    by (vm_compute; reflexivity).
  split; [exact Hrun|]. split; [exact Hnone|]. split; [vm_compute; reflexivity|].
  refine (only_accept_registers _ _ _ "A" Hrun _ Hnone).
  apply Forall_singleton. intros conn. discriminate.
Defined.

(** ** The roster after a microphone change *)

Lemma wf_set_flag (c : loc) on s :
  wf s →
  wf (mkState (<[c := mkClient (cID (deref s c)) (cConn (deref s c))
                               (cRoom (deref s c)) on]> (heap s))
              (clients s) (roomUsers s) (wire s)).
Proof.
  apply wf_shrink; simpl; [by rewrite length_insert| |done].
  intros p. unfold deref. simpl. by apply insert_same_ID.
Qed.

(** X18: when a registered client changes its microphone flag, every
    roster written by that message shows the new flag in each entry that
    carries the client's identifier. *)
Theorem mic_roster_shows_new_flag (c : loc) msg s on :
  reachable s →
  mType msg = "mic" →
  mMicOn msg = Some on →
  clients s !! cID (deref s c) = Some c →
  Forall (λ f, mType f.2 = "user_list"
               ∧ ∀ u, u ∈ mUsers f.2 → uID u = cID (deref s c) → uMicOn u = on)
         (drop (length (wire s)) (wire (dispatch c msg s))).
Proof.
  intros Hr Ht Hon Hreg. pose proof (reachable_wf s Hr) as Hwf.
  destruct (Hwf _ _ Hreg) as [Hc _].
  pose proof (wf_set_flag c on s Hwf) as Hwf'.
  rewrite dispatch_mic by done. rewrite Hon.
  rewrite broadcastUserList_wire. simpl. rewrite drop_app_length.
  eapply Forall_impl; [apply fanout_frames|].
  intros f ->. split; [done|]. simpl. intros u Hu Hid.
  rewrite roster_omap in Hu.
  apply list_elem_of_omap in Hu as (id' & _ & Hentry).
  pose proof (rosterEntry_ID _ _ _ Hwf' Hentry) as Hid'.
  unfold rosterEntry in Hentry. simpl in Hentry.
  destruct (clients s !! id') as [p|] eqn:Hp; [|done].
  simpl in Hentry. injection Hentry as <-. simpl in *.
  assert (p = c) as -> by congruence.
  unfold deref. simpl. by rewrite list_lookup_total_insert_eq.
Qed.

Lemma mic_roster_shows_new_flag_witness :
  reachable twoInRoom
  ∧ mType (micMsg (Some false)) = "mic"
  ∧ mMicOn (micMsg (Some false)) = Some false
  ∧ clients twoInRoom !! cID (deref twoInRoom 0) = Some 0
  ∧ drop (length (wire twoInRoom)) (wire (dispatch 0 (micMsg (Some false)) twoInRoom))
    = [(10, userListMessage [mkUser "A" false; mkUser "B" true]);
       (11, userListMessage [mkUser "A" false; mkUser "B" true])]
  ∧ Forall (λ f, mType f.2 = "user_list"
                 ∧ ∀ u, u ∈ mUsers f.2 → uID u = cID (deref twoInRoom 0) →
                        uMicOn u = false)
           (drop (length (wire twoInRoom))
                 (wire (dispatch 0 (micMsg (Some false)) twoInRoom))).
Proof.
  assert (reachable twoInRoom) as Hr.
  { exists [EAccept "A" 10; EFrame 0 (joinMsg "r1");
            EAccept "B" 11; EFrame 1 (joinMsg "r1")].
    vm_compute. reflexivity. }
  assert (clients twoInRoom !! cID (deref twoInRoom 0) = Some 0) as Hreg
    by (vm_compute; reflexivity).
  split; [exact Hr|]. split; [reflexivity|]. split; [reflexivity|].
  split; [exact Hreg|]. split; [vm_compute; reflexivity|].
  exact (mic_roster_shows_new_flag 0 (micMsg (Some false)) twoInRoom false
           Hr eq_refl eq_refl Hreg).
Defined.
